(** * command-handler: the registry and the invocation pipeline

    A shallow embedding of [commands/core.py], [commands/models.py] and
    [commands/utils.py]: the case-folding dictionary, the command sink and
    the bot, the invoke / error / complete life cycle of a command, and
    the two helpers [ensure_async] and [to_error_string].

    Conventions of the embedding.
    - A Python object that is compared by identity carries its identity
      ([cmd_id], a [Ref]); an attribute that holds an object holds its
      identity, and the state keeps the table of the [Command] objects.
    - A [dict] is an association list in insertion order, the order in
      which Python iterates it.
    - A callback is a coroutine function, as [CommandCallback] and
      [ErrorCallback] are annotated; awaiting it either completes or
      raises, and it acts on a world [W] that is everything outside the
      pipeline.  For the methods of [Context] the world is a [World]: it
      holds the contexts, so that a callback, which is handed the context,
      can read and write the attributes of every context.
    - [_temporary_dispatch] appends to a log instead of printing; the log
      is the trace of the invocation under study. *)

From stdpp Require Import base strings list gmap.

Local Open Scope string_scope.

(** ** Exceptions and completions *)

(** An exception object: its class name, its text, and whether the class
    derives from [Exception] (what an [except Exception] clause tests). *)
Record BaseException := mkException {
  exc_class : string;
  exc_text : string;
  isinstance_Exception : bool
}.

Definition NameError (name : string) : BaseException :=
  mkException "NameError" ("name '" +:+ name +:+ "' is not defined") true.
Definition KeyError (key : string) : BaseException :=
  mkException "KeyError" key true.
Definition TypeError (text : string) : BaseException :=
  mkException "TypeError" text true.
Definition AttributeError (text : string) : BaseException :=
  mkException "AttributeError" text true.
Definition ValueError (text : string) : BaseException :=
  mkException "ValueError" text true.
(** [asyncio.CancelledError] and [KeyboardInterrupt] derive from
    [BaseException] directly. *)
Definition CancelledError : BaseException :=
  mkException "CancelledError" "" false.
Definition KeyboardInterrupt : BaseException :=
  mkException "KeyboardInterrupt" "" false.

(** How a block of statements ends: it falls through with a value, it
    executes [return], or it raises. *)
Inductive Completion (A : Type) : Type :=
| Normal (a : A)
| Returned
| Raised (e : BaseException).
Arguments Normal {A} a.
Arguments Returned {A}.
Arguments Raised {A} e.

(** ** [dict] *)

Definition pydict (V : Type) : Type := list (string * V).

Definition dict_keys {V} (d : pydict V) : list string := d.*1.
Definition dict_values {V} (d : pydict V) : list V := d.*2.

Fixpoint dict_lookup {V} (d : pydict V) (key : string) : option V :=
  match d with
  | [] => None
  | (k, v) :: d' => if decide (k = key) then Some v else dict_lookup d' key
  end.

(** [d[key] = value]: an existing key keeps its place, a new one goes last. *)
Fixpoint dict__setitem__ {V} (d : pydict V) (key : string) (value : V) : pydict V :=
  match d with
  | [] => [(key, value)]
  | (k, v) :: d' =>
      if decide (k = key) then (k, value) :: d'
      else (k, v) :: dict__setitem__ d' key value
  end.

Definition dict__getitem__ {V} (d : pydict V) (key : string) : Completion V :=
  match dict_lookup d key with
  | Some v => Normal v
  | None => Raised (KeyError key)
  end.

Definition dict__contains__ {V} (d : pydict V) (key : string) : bool :=
  bool_decide (is_Some (dict_lookup d key)).

Definition dict_remove {V} (d : pydict V) (key : string) : pydict V :=
  filter (fun kv => kv.1 ≠ key) d.

Definition dict__delitem__ {V} (d : pydict V) (key : string) : Completion (pydict V) :=
  match dict_lookup d key with
  | Some _ => Normal (dict_remove d key)
  | None => Raised (KeyError key)
  end.

(** [d.get(key, default)]: the value, or [default] (of any type). *)
Definition dict_get {V D} (d : pydict V) (key : string) (default : D) : V + D :=
  match dict_lookup d key with
  | Some v => inl v
  | None => inr default
  end.

Definition dict_pop {V D} (d : pydict V) (key : string) (default : D) : (V + D) * pydict V :=
  match dict_lookup d key with
  | Some v => (inl v, dict_remove d key)
  | None => (inr default, d)
  end.

(** ** [CaseInsensitiveDict] *)

(** [str.casefold]. *)
Class Casefold := casefold : string -> string.

(** Name lookup in the body of [__setitem__], for the value it stores.
    The local names are the parameters [self], [key] and [value]; the
    module [core.py] binds its imports and its three classes, and no
    builtin is called [v].  Of all these only [value] holds a mapping
    value, so the scope is listed by that one binding. *)
Definition setitem_scope {V} (value : V) : pydict V := [("value", value)].

Section CaseInsensitiveDict.
Context {fold : Casefold} {V : Type}.

Definition CaseInsensitiveDict__getitem__ (self : pydict V) (key : string) : Completion V :=
  dict__getitem__ self (casefold key).

(** The body stores [v], not the parameter [value]. *)
Definition CaseInsensitiveDict__setitem__ (self : pydict V) (key : string) (value : V)
  : Completion (pydict V) :=
  match dict_lookup (setitem_scope value) "v" with
  | Some v => Normal (dict__setitem__ self (casefold key) v)
  | None => Raised (NameError "v")
  end.

Definition CaseInsensitiveDict__delitem__ (self : pydict V) (key : string)
  : Completion (pydict V) :=
  dict__delitem__ self (casefold key).

Definition CaseInsensitiveDict__contains__ (self : pydict V) (key : string) : bool :=
  dict__contains__ self (casefold key).

Definition CaseInsensitiveDict_get {D} (self : pydict V) (key : string) (default : D) : V + D :=
  dict_get self (casefold key) default.

Definition CaseInsensitiveDict_pop {D} (self : pydict V) (key : string) (default : D)
  : (V + D) * pydict V :=
  dict_pop self (casefold key) default.

End CaseInsensitiveDict.

(** The mapping of a sink is an instance of one of two classes, chosen by
    [mapping_factory]; a method call goes to the class of the object. *)
Inductive Mapping (V : Type) : Type :=
| PlainDict (d : pydict V)
| CaseInsensitiveDict (d : pydict V).
Arguments PlainDict {V} d.
Arguments CaseInsensitiveDict {V} d.

Definition items {V} (m : Mapping V) : pydict V :=
  match m with PlainDict d | CaseInsensitiveDict d => d end.

Definition is_case_insensitive {V} (m : Mapping V) : bool :=
  match m with PlainDict _ => false | CaseInsensitiveDict _ => true end.

Definition mapping_factory {V} (case_insensitive : bool) : Mapping V :=
  if case_insensitive then CaseInsensitiveDict [] else PlainDict [].

(** [values] is inherited from [dict] by both classes. *)
Definition mapping_values {V} (m : Mapping V) : list V := dict_values (items m).

Definition mapping_get {fold : Casefold} {V D} (m : Mapping V) (key : string) (default : D) : V + D :=
  match m with
  | PlainDict d => dict_get d key default
  | CaseInsensitiveDict d => CaseInsensitiveDict_get d key default
  end.

Definition mapping__setitem__ {fold : Casefold} {V} (m : Mapping V) (key : string) (value : V)
  : Completion (Mapping V) :=
  match m with
  | PlainDict d => Normal (PlainDict (dict__setitem__ d key value))
  | CaseInsensitiveDict d =>
      match CaseInsensitiveDict__setitem__ d key value with
      | Normal d' => Normal (CaseInsensitiveDict d')
      | Returned => Returned
      | Raised e => Raised e
      end
  end.

(** ** Objects of [models.py] *)

(** The identity of an object ([id(obj)]). *)
Definition Ref : Type := nat.

(** Argument values; the core passes them on and never looks inside. *)
Inductive PyValue : Type :=
| PyNone
| PyBool (b : bool)
| PyInt (n : Z)
| PyStr (s : string).

(** What awaiting a callback comes to. *)
Inductive Outcome : Type :=
| Completes
| Fails (e : BaseException).

(** A callback is handed the context by reference and acts on the world;
    in a [World] (below) the attributes of that context, and of every
    other, are part of what it reads and may write. *)
Definition CommandCallback (W : Type) : Type :=
  Ref -> list PyValue -> pydict PyValue -> W -> Outcome * W.
Definition ErrorCallback (W : Type) : Type :=
  Ref -> BaseException -> W -> Outcome * W.

Record Command (W : Type) : Type := mkCommand {
  cmd_id : Ref;
  callback : CommandCallback W;
  error_callback : option (ErrorCallback W);
  name : string;
  aliases : list string;
  _brief : option string;
  _description : option string;
  _metadata : pydict PyValue
}.
Arguments mkCommand {W}.
Arguments cmd_id {W} _.
Arguments callback {W} _.
Arguments error_callback {W} _.
Arguments name {W} _.
Arguments aliases {W} _.
Arguments _brief {W} _.
Arguments _description {W} _.
Arguments _metadata {W} _.

(** [Command.__init__]; [id] is the identity of the new object. *)
Definition Command__init__ {W} (id : Ref) (callback : CommandCallback W)
    (name : string) (aliases : list string)
    (brief description : option string) (attrs : pydict PyValue) : Command W :=
  mkCommand id callback None name aliases brief description attrs.

(** [Command.error]: attaches the error handler to the same object. *)
Definition Command_error {W} (self : Command W) (func : ErrorCallback W) : Command W :=
  mkCommand (cmd_id self) (callback self) (Some func) (name self) (aliases self)
            (_brief self) (_description self) (_metadata self).

(** The attributes of a context; [command] holds the identity of the
    object it refers to. *)
Record Context : Type := mkContext {
  command : option Ref;
  args : option (list PyValue);
  kwargs : option (pydict PyValue)
}.

(** The attributes [Context.__init__] sets. *)
Definition Context__init__ : Context := mkContext None None None.

#[export] Instance Context_inhabited : Inhabited Context := populate Context__init__.

(** A world that holds the context objects, beside the rest [U]. *)
Record World (U : Type) : Type := mkWorld {
  contexts : gmap Ref Context;
  user : U
}.
Arguments mkWorld {U}.
Arguments contexts {U} _.
Arguments user {U} _.

(** What the argument [command] of [Context.invoke] refers to: a
    [Command] object, [None], or an object of another class. *)
Inductive Reference (W : Type) : Type :=
| CommandRef (c : Command W)
| NoneRef
| OtherRef (id : Ref).
Arguments CommandRef {W} c.
Arguments NoneRef {W}.
Arguments OtherRef {W} id.

(** The identity a reference stores; [None] stores none. *)
Definition ref_id {W} (r : Reference W) : option Ref :=
  match r with
  | CommandRef c => Some (cmd_id c)
  | NoneRef => None
  | OtherRef id => Some id
  end.

(** ** Events, state and the monad of statements *)

Inductive Payload : Type :=
| PContext (ctx : Ref)
| PError (exc : BaseException).

(** One call [_temporary_dispatch(event, *args)]. *)
Record Event : Type := mkEvent {
  event : string;
  payload : list Payload
}.

(** The state: the [Command] objects by identity, the log of dispatched
    events, and the world of the callbacks. *)
Record State (W : Type) : Type := mkState {
  objects : gmap Ref (Command W);
  log : list Event;
  world : W
}.
Arguments mkState {W}.
Arguments objects {W} _.
Arguments log {W} _.
Arguments world {W} _.

(** The context objects of a state. *)
Definition heap {U} (st : State (World U)) : gmap Ref Context := contexts (world st).

Definition Py (W A : Type) : Type := State W -> Completion A * State W.

Definition ret {W A} (a : A) : Py W A := fun st => (Normal a, st).

Definition bind {W A B} (m : Py W A) (k : A -> Py W B) : Py W B :=
  fun st =>
    match m st with
    | (Normal a, st') => k a st'
    | (Returned, st') => (Returned, st')
    | (Raised e, st') => (Raised e, st')
    end.

Declare Scope py_scope.
Delimit Scope py_scope with py.
Notation "x <- m ;; k" := (bind m (fun x => k))
  (at level 100, m at next level, right associativity) : py_scope.
Notation "m ;; k" := (bind m (fun _ => k))
  (at level 100, right associativity) : py_scope.

Definition raise {W A} (e : BaseException) : Py W A := fun st => (Raised e, st).
Definition return_ {W A} : Py W A := fun st => (Returned, st).

(** The boundary of a [def] without a result: [return] ends the call. *)
Definition def {W} (body : Py W unit) : Py W unit :=
  fun st =>
    match body st with
    | (Returned, st') => (Normal tt, st')
    | r => r
    end.

(** [try: body / except Exception as exc: handler / else: orelse].  The
    clause catches instances of [Exception] only, and what [orelse]
    raises is not caught. *)
Definition try_except_else {W A B} (body : Py W A)
    (handler : BaseException -> Py W B) (orelse : A -> Py W B) : Py W B :=
  fun st =>
    match body st with
    | (Normal a, st') => orelse a st'
    | (Returned, st') => (Returned, st')
    | (Raised exc, st') =>
        if isinstance_Exception exc then handler exc st' else (Raised exc, st')
    end.

(** [try: body / finally: finalbody]: [finalbody] runs however [body]
    ends, and [body]'s completion stands unless [finalbody] breaks off. *)
Definition try_finally {W A} (body : Py W A) (finalbody : Py W unit) : Py W A :=
  fun st =>
    let '(c, st') := body st in
    match finalbody st' with
    | (Normal _, st'') => (c, st'')
    | (Returned, st'') => (Returned, st'')
    | (Raised e, st'') => (Raised e, st'')
    end.

(** [await coro(...)]: the callback runs on the world, contexts included,
    and leaves the table of commands and the log of this invocation. *)
Definition await {W} (coro : W -> Outcome * W) : Py W unit :=
  fun st =>
    let '(o, w) := coro (world st) in
    let st' := mkState (objects st) (log st) w in
    match o with
    | Completes => (Normal tt, st')
    | Fails e => (Raised e, st')
    end.

Definition _temporary_dispatch {W} (event : string) (args : list Payload) : Py W unit :=
  fun st => (Normal tt, mkState (objects st) (log st ++ [mkEvent event args]) (world st)).

(** Reading the attributes of a context; an identity that was never
    written stands for a context as [__init__] leaves it. *)
Definition getattrs {U} (obj : Ref) : Py (World U) Context :=
  fun st => (Normal (heap st !!! obj), st).

(** The world with the attributes of one context replaced. *)
Definition write_context {U} (obj : Ref) (c : Context) (w : World U) : World U :=
  mkWorld (<[obj := c]> (contexts w)) (user w).

(** The three assignments [self.command = command], [self.args = args],
    [self.kwargs = kwargs].  A [Command] that is stored is entered in the
    table of objects, where its identity leads back to it. *)
Definition setattrs {U} (obj : Ref) (command : Reference (World U))
    (args : list PyValue) (kwargs : pydict PyValue) : Py (World U) unit :=
  fun st =>
    (Normal tt,
     mkState (match command with
              | CommandRef c => <[cmd_id c := c]> (objects st)
              | _ => objects st
              end)
             (log st)
             (write_context obj (mkContext (ref_id command) (Some args) (Some kwargs))
                            (world st))).

(** The object that an attribute holding [id] refers to. *)
Definition deref {U} (id : option Ref) : Py (World U) (Reference (World U)) :=
  fun st =>
    (Normal match id with
            | None => NoneRef
            | Some i =>
                match objects st !! i with
                | Some c => CommandRef c
                | None => OtherRef i
                end
            end,
     st).

(** [Context()]: a new object with the attributes of [__init__]. *)
Definition Context_new {U} : Py (World U) Ref :=
  fun st =>
    let obj := fresh (dom (heap st)) in
    (Normal obj, mkState (objects st) (log st) (write_context obj Context__init__ (world st))).

(** ** [Command.invoke] *)

Local Open Scope py_scope.

Definition Command_invoke {W} (self : Command W) (ctx : Ref)
    (args : list PyValue) (kwargs : pydict PyValue) : Py W unit :=
  def (
    try_finally
      (try_except_else
         (_temporary_dispatch "command" [PContext ctx] ;;
          await (callback self ctx args kwargs))
         (fun exc =>
            exc <- match error_callback self with
                   | Some error_callback =>
                       try_except_else
                         (await (error_callback ctx exc))
                         (fun new_exc => ret new_exc)
                         (fun _ => return_)
                   | None => ret exc
                   end ;;
            _temporary_dispatch "command_error" [PContext ctx; PError exc])
         (fun _ => _temporary_dispatch "command_success" [PContext ctx]))
      (_temporary_dispatch "command_complete" [PContext ctx])).

(** ** [Context.invoke] and [Context.reinvoke] *)

Definition Context_invoke {U} (self : Ref) (command : Reference (World U))
    (args : list PyValue) (kwargs : pydict PyValue) : Py (World U) unit :=
  def (
    setattrs self command args kwargs ;;
    match command with
    | CommandRef command => Command_invoke command self args kwargs
    | NoneRef => raise (AttributeError "'NoneType' object has no attribute 'invoke'")
    | OtherRef _ => raise (AttributeError "object has no attribute 'invoke'")
    end).

(** [self.invoke(self.command, *self.args, **self.kwargs)]: the arguments
    are unpacked before the call, and [None] unpacks to a [TypeError]. *)
Definition Context_reinvoke {U} (self : Ref) : Py (World U) unit :=
  def (
    o <- getattrs self ;;
    command <- deref (command o) ;;
    match args o with
    | None => raise (TypeError "invoke() argument after * must be an iterable, not NoneType")
    | Some args =>
        match kwargs o with
        | None => raise (TypeError "invoke() argument after ** must be a mapping, not NoneType")
        | Some kwargs => Context_invoke self command args kwargs
        end
    end).

Local Close Scope py_scope.

(** ** [CommandSink] *)

Record CommandSink (W : Type) : Type := mkCommandSink {
  mapping : Mapping (Command W)
}.
Arguments mkCommandSink {W}.
Arguments mapping {W} _.

Definition CommandSink__init__ {W} (case_insensitive : bool) : CommandSink W :=
  mkCommandSink (mapping_factory case_insensitive).

(** The loop of [walk_commands] over [self.mapping.values()]; [seen]
    holds commands by identity, as the default [__hash__] and [__eq__] do,
    and the result lists what the generator yields. *)
Fixpoint walk {W} (seen : gset Ref) (values : list (Command W)) : list (Command W) :=
  match values with
  | [] => []
  | command :: values' =>
      if decide (cmd_id command ∈ seen) then walk seen values'
      else command :: walk ({[cmd_id command]} ∪ seen) values'
  end.

Definition CommandSink_walk_commands {W} (self : CommandSink W) : list (Command W) :=
  walk ∅ (mapping_values (mapping self)).

Definition CommandSink_get_command {fold : Casefold} {W D} (self : CommandSink W)
    (name : string) (default : D) : Command W + D :=
  mapping_get (mapping self) name default.

Definition CommandSink_commands {W} (self : CommandSink W) : list (Command W) :=
  CommandSink_walk_commands self.

(** Modelled from the spec: [register] is not among the source files.
    Section 4.2 of the specification: it "inserts command into mapping
    under its name and under every entry of its aliases".  Each insertion
    is the item assignment [self.mapping[key] = command] of the mapping's
    own class, in the order name, then aliases. *)
Definition CommandSink_register {fold : Casefold} {W} (self : CommandSink W) (command : Command W)
  : Completion (CommandSink W) :=
  match
    foldl (fun acc key =>
             match acc with
             | Normal m => mapping__setitem__ m key command
             | other => other
             end)
          (Normal (mapping self)) (name command :: aliases command)
  with
  | Normal m => Normal (mkCommandSink m)
  | Returned => Returned
  | Raised e => Raised e
  end.

(** ** [Bot] *)

(** A prefix: one string, several, or a callable (kept by identity). *)
Inductive Prefix : Type :=
| PrefixStr (s : string)
| PrefixSeq (l : list string)
| PrefixCallable (f : Ref).

Record Bot (W : Type) : Type := mkBot {
  bot_mapping : Mapping (Command W);
  prefix : Prefix;
  _default_case_insensitive : bool
}.
Arguments mkBot {W}.
Arguments bot_mapping {W} _.
Arguments prefix {W} _.
Arguments _default_case_insensitive {W} _.

(** The [CommandSink] that a bot is. *)
Definition bot_sink {W} (self : Bot W) : CommandSink W := mkCommandSink (bot_mapping self).

(** [Bot.__init__(prefix, case_insensitive=..., **kwargs)] on an object of
    class [Bot].  [super().__init__] with [kwargs] unpacked is [CommandSink.__init__],
    whose only keyword is [case_insensitive]; that name is bound by the
    parameter of [Bot.__init__], so every key of [kwargs] is one the call
    does not accept.  With no such key the first call builds the default
    mapping and [CommandSink.__init__(self, case_insensitive=...)] builds
    it again. *)
Definition Bot__init__ {W} (prefix : Prefix) (case_insensitive : bool)
    (kwargs : pydict PyValue) : Completion (Bot W) :=
  match kwargs with
  | (key, _) :: _ =>
      Raised (TypeError ("__init__() got an unexpected keyword argument '" +:+ key +:+ "'"))
  | [] =>
      let m : Mapping (Command W) := mapping (CommandSink__init__ false) in
      let m : Mapping (Command W) := mapping (CommandSink__init__ case_insensitive) in
      Normal (mkBot m prefix case_insensitive)
  end.

(** ** [utils.py] *)

(** What a call or an [await] comes to when its value matters. *)
Inductive Result (R : Type) : Type :=
| Gives (r : R)
| Throws (e : BaseException).
Arguments Gives {R} r.
Arguments Throws {R} e.

(** The object a call returns: a plain value, or an awaitable, which is
    run by awaiting it ([inspect.isawaitable] tells them apart). *)
Inductive PyObject (W R : Type) : Type :=
| Plain (r : R)
| Awaitable (coro : W -> Result R * W).
Arguments Plain {W R} r.
Arguments Awaitable {W R} coro.

(** A function of arguments [A] (what it is called with): calling it acts
    on the world and returns an object, or raises. *)
Definition Function (W A R : Type) : Type := A -> W -> Result (PyObject W R) * W.

(** [async def f(...): body]: the call only builds the coroutine. *)
Definition async_def {W A R} (body : A -> W -> Result R * W) : Function W A R :=
  fun a w => (Gives (Awaitable (body a)), w).

(** [def f(...): body] returning plain values. *)
Definition plain_def {W A R} (body : A -> W -> Result R * W) : Function W A R :=
  fun a w =>
    match body a w with
    | (Gives r, w') => (Gives (Plain r), w')
    | (Throws e, w') => (Throws e, w')
    end.

(** [await obj]: an object that is not awaitable raises [TypeError]. *)
Definition await_object {W R} (obj : PyObject W R) : W -> Result R * W :=
  match obj with
  | Awaitable coro => coro
  | Plain _ => fun w => (Throws (TypeError "object can't be used in 'await' expression"), w)
  end.

(** [await func(...)]: the call, then the [await] of what it returned. *)
Definition await_call {W A R} (func : Function W A R) (a : A) : W -> Result R * W :=
  fun w =>
    match func a w with
    | (Gives obj, w') => await_object obj w'
    | (Throws e, w') => (Throws e, w')
    end.

Definition ensure_async {W A R} (func : Function W A R) : Function W A R :=
  async_def (fun a w =>
    match func a w with
    | (Gives maybe_coro, w') =>
        match maybe_coro with
        | Awaitable _ => await_object maybe_coro w'
        | Plain r => (Gives r, w')
        end
    | (Throws e, w') => (Throws e, w')
    end).

(** A function as the callback of a command: line 98 of [models.py]
    awaits the call and drops the value. *)
Definition as_callback {W R} (func : Function W (Ref * list PyValue * pydict PyValue) R)
  : CommandCallback W :=
  fun ctx args kwargs w =>
    match await_call func (ctx, args, kwargs) w with
    | (Gives _, w') => (Completes, w')
    | (Throws e, w') => (Fails e, w')
    end.

(** [str.isspace] on one character. *)
Class Isspace := isspace : Ascii.ascii -> bool.

Section Strip.
Context {space : Isspace}.

Fixpoint lstrip (s : string) : string :=
  match s with
  | EmptyString => EmptyString
  | String c s' => if isspace c then lstrip s' else s
  end.

Fixpoint rstrip (s : string) : string :=
  match s with
  | EmptyString => EmptyString
  | String c s' =>
      match rstrip s' with
      | EmptyString => if isspace c then EmptyString else String c EmptyString
      | r => String c r
      end
  end.

(** [s.strip()] *)
Definition strip (s : string) : string := rstrip (lstrip s).

(** The truth value of a string. *)
Definition str_bool (s : string) : bool :=
  match s with EmptyString => false | String _ _ => true end.

(** [to_error_string]; [exc_text] is [str(exc)], which is also what
    [format] puts for [{0}]. *)
Definition to_error_string (exc : BaseException) : string :=
  if str_bool (strip (exc_text exc))
  then exc_class exc +:+ ": " +:+ exc_text exc
  else exc_class exc.

End Strip.

(** Every character of a string is white space. *)
Fixpoint blank {space : Isspace} (s : string) : bool :=
  match s with
  | EmptyString => true
  | String c s' => isspace c && blank s'
  end.

(** ** Vocabulary of the statements *)

Definition started (ctx : Ref) : Event := mkEvent "command" [PContext ctx].
Definition succeeded (ctx : Ref) : Event := mkEvent "command_success" [PContext ctx].
Definition errored (ctx : Ref) (exc : BaseException) : Event :=
  mkEvent "command_error" [PContext ctx; PError exc].
Definition completed (ctx : Ref) : Event := mkEvent "command_complete" [PContext ctx].

(** The state after a call that dispatched [trace] and left the world [w]. *)
Definition after {W} (st : State W) (trace : list Event) (w : W) : State W :=
  mkState (objects st) (log st ++ trace) w.

(** The silent branch of an invocation: the handler raises an instance of
    [Exception], an error handler is attached, and it completes. *)
Definition silent_recovery {W} (self : Command W) (ctx : Ref)
    (args : list PyValue) (kwargs : pydict PyValue) (st : State W) : Prop :=
  exists e1 w1 h w2,
    callback self ctx args kwargs (world st) = (Fails e1, w1)
    /\ isinstance_Exception e1 = true
    /\ error_callback self = Some h
    /\ h ctx e1 w1 = (Completes, w2).

(** The state in which [Context.invoke] hands over to the command: the
    attributes are written and the command is in the table. *)
Definition handed_over {U} (self : Ref) (cmd : Command (World U))
    (args : list PyValue) (kwargs : pydict PyValue) (st : State (World U))
  : State (World U) :=
  mkState (<[cmd_id cmd := cmd]> (objects st)) (log st)
          (write_context self (mkContext (Some (cmd_id cmd)) (Some args) (Some kwargs))
                         (world st)).

(** How many events of one name a trace holds. *)
Definition dispatched (name : string) (trace : list Event) : nat :=
  length (filter (fun ev => event ev = name) trace).

(** A callback outcome that an [except Exception] clause deals with. *)
Definition raises_only_Exception (o : Outcome) : Prop :=
  match o with
  | Completes => True
  | Fails e => isinstance_Exception e = true
  end.

(** How often [walk_commands] yields the object [command]. *)
Definition yields {W} (self : CommandSink W) (command : Command W) : nat :=
  length (filter (fun c => cmd_id c = cmd_id command) (CommandSink_walk_commands self)).

Definition key_count {W} (self : CommandSink W) : nat :=
  length (dict_keys (items (mapping self))).

(** ** Concrete objects for the examples *)

(** [str.casefold] on ASCII text: the capital letters go to lower case. *)
Definition casefold_ascii (c : Ascii.ascii) : Ascii.ascii :=
  let n := Ascii.nat_of_ascii c in
  if (65 <=? n)%nat && (n <=? 90)%nat then Ascii.ascii_of_nat (n + 32) else c.

Fixpoint ascii_casefold (s : string) : string :=
  match s with
  | EmptyString => EmptyString
  | String c s' => String (casefold_ascii c) (ascii_casefold s')
  end.

(** The example world counts the callbacks that have run. *)
Definition handler_ok : CommandCallback nat := fun _ _ _ w => (Completes, S w).
Definition handler_raises (e : BaseException) : CommandCallback nat :=
  fun _ _ _ w => (Fails e, S w).
Definition on_error_ok : ErrorCallback nat := fun _ _ w => (Completes, S w).
Definition on_error_raises (e : BaseException) : ErrorCallback nat :=
  fun _ _ w => (Fails e, S w).

Definition ping : Command nat :=
  Command__init__ 1 handler_ok "ping" ["p"] None None [].
Definition failing (e : BaseException) : Command nat :=
  Command__init__ 2 (handler_raises e) "fail" [] None None [].
Definition twice_p : Command nat :=
  Command__init__ 3 handler_ok "ping" ["p"; "p"] None None [].

Definition initial : State nat := mkState ∅ [] 0.

(** A world with contexts, and callbacks on it: [pong] adds ten to the
    count; the handler of [redirect] invokes [pong] on its own context, of
    which the attribute writes and one count are kept here. *)
Definition count_up (n : nat) (w : World nat) : World nat :=
  mkWorld (contexts w) (n + user w).
Definition pong : Command (World nat) :=
  Command__init__ 11 (fun _ _ _ w => (Completes, count_up 10 w)) "pong" [] None None [].
Definition redirect : Command (World nat) :=
  Command__init__ 12
    (fun ctx _ _ w =>
       (Completes, write_context ctx (mkContext (Some 11) (Some []) (Some [])) (count_up 1 w)))
    "redirect" [] None None [].
Definition no_contexts : State (World nat) := mkState ∅ [] (mkWorld ∅ 0).
Definition knows_pong : State (World nat) := mkState {[11 := pong]} [] (mkWorld ∅ 0).

(** A handler that raises [ValueError("bad")], with an error handler that
    completes, and with one that raises in turn. *)
Definition recovered : Command nat :=
  Command_error (failing (ValueError "bad")) on_error_ok.
Definition failing_twice : Command nat :=
  Command_error (failing (ValueError "bad")) (on_error_raises (TypeError "worse")).


(** The white space of ASCII: tab to carriage return, the four
    separators, and the space. *)
Definition ascii_isspace : Isspace :=
  fun c =>
    let n := Ascii.nat_of_ascii c in
    ((9 <=? n)%nat && (n <=? 13)%nat) || ((28 <=? n)%nat && (n <=? 32)%nat).

(** A synchronous handler and an [async def] handler that count a call and
    return [None]. *)
Definition sync_handler : Function nat (Ref * list PyValue * pydict PyValue) PyValue :=
  plain_def (fun _ w => (Gives PyNone, S w)).
Definition async_handler : Function nat (Ref * list PyValue * pydict PyValue) PyValue :=
  async_def (fun _ w => (Gives PyNone, S w)).

(** A case-sensitive sink that holds [ping] under its name and alias. *)
Definition plain_sink : CommandSink nat :=
  mkCommandSink (PlainDict [("ping", ping); ("p", ping)]).

(** A dictionary filled through [dict.__init__], which folds no key. *)
Definition unfolded_dict : pydict PyValue := [("Ping", PyInt 1); ("pong", PyInt 2)].

(** Commands built on the synchronous handler, bare and through
    [ensure_async]. *)
Definition sync_command : Command nat :=
  Command__init__ 4 (as_callback sync_handler) "sync" [] None None [].
Definition wrapped_command : Command nat :=
  Command__init__ 5 (as_callback (ensure_async sync_handler)) "wrapped" [] None None [].

Local Open Scope list_scope.

(** * Properties of the invocation pipeline *)

Section Pipeline.
Context {W : Type}.
Implicit Types (self : Command W) (ctx : Ref) (st : State W).
Implicit Types (args : list PyValue) (kwargs : pydict PyValue).

Ltac run_invoke :=
  unfold Command_invoke, def, try_finally, try_except_else, bind, await,
    _temporary_dispatch, ret, return_, after; simpl.

(** [Command.invoke] as a decision table over what the two callbacks do. *)
Lemma Command_invoke_table self ctx args kwargs st :
  Command_invoke self ctx args kwargs st =
  match callback self ctx args kwargs (world st) with
  | (Completes, w1) =>
      (Normal tt, after st [started ctx; succeeded ctx; completed ctx] w1)
  | (Fails e1, w1) =>
      if isinstance_Exception e1 then
        match error_callback self with
        | None => (Normal tt, after st [started ctx; errored ctx e1; completed ctx] w1)
        | Some h =>
            match h ctx e1 w1 with
            | (Completes, w2) => (Normal tt, after st [started ctx; completed ctx] w2)
            | (Fails e2, w2) =>
                if isinstance_Exception e2
                then (Normal tt, after st [started ctx; errored ctx e2; completed ctx] w2)
                else (Raised e2, after st [started ctx; completed ctx] w2)
            end
        end
      else (Raised e1, after st [started ctx; completed ctx] w1)
  end.
Proof.
  run_invoke.
  destruct (callback self ctx args kwargs (world st)) as [[|e1] w1]; simpl.
  - by rewrite <- !app_assoc.
  - destruct (isinstance_Exception e1); simpl; [|by rewrite <- !app_assoc].
    destruct (error_callback self) as [h|]; simpl; [|by rewrite <- !app_assoc].
    destruct (h ctx e1 w1) as [[|e2] w2]; simpl; [by rewrite <- !app_assoc|].
    destruct (isinstance_Exception e2); simpl; by rewrite <- !app_assoc.
Qed.

(** The shape of the trace of one invocation, whatever the callbacks do. *)
Lemma Command_invoke_trace self ctx args kwargs st :
  exists outcome : list Event,
    log (Command_invoke self ctx args kwargs st).2
      = log st ++ [started ctx] ++ outcome ++ [completed ctx]
    /\ (outcome = [succeeded ctx]
        \/ (exists exc, outcome = [errored ctx exc])
        \/ outcome = []).
Proof.
  rewrite Command_invoke_table.
  destruct (callback self ctx args kwargs (world st)) as [[|e1] w1].
  { exists [succeeded ctx]. split; [done | by left]. }
  destruct (isinstance_Exception e1).
  2:{ exists []. split; [done | by right; right]. }
  destruct (error_callback self) as [h|].
  2:{ exists [errored ctx e1]. split; [done | right; left; by exists e1]. }
  destruct (h ctx e1 w1) as [[|e2] w2].
  { exists []. split; [done | by right; right]. }
  destruct (isinstance_Exception e2).
  - exists [errored ctx e2]. split; [done | right; left; by exists e2].
  - exists []. split; [done | by right; right].
Qed.

Lemma Command_invoke_objects self ctx args kwargs st :
  objects (Command_invoke self ctx args kwargs st).2 = objects st.
Proof.
  rewrite Command_invoke_table.
  repeat (case_match; simpl; try done).
Qed.

(** C1, as amended: every invocation dispatches [command] first, then
    takes exactly one of four branches, then dispatches [command_complete]
    last.  The branches: [command_success] after the handler completed;
    [command_error] after a failure within [Exception]; the silent
    recovery, with no event, when the error handler completed; and, with
    no event either, the failure outside [Exception] that the call raises
    to its caller.  Success and error are never both dispatched, and
    [command_complete] is dispatched exactly once. *)
Theorem C1_lifecycle_order self ctx args kwargs st :
  exists outcome : list Event,
    let trace := [started ctx] ++ outcome ++ [completed ctx] in
    let run := Command_invoke self ctx args kwargs st in
    log run.2 = log st ++ trace
    /\ ((outcome = [succeeded ctx] /\ run.1 = Normal tt
         /\ callback self ctx args kwargs (world st) = (Completes, world run.2))
        \/ (exists exc, outcome = [errored ctx exc] /\ run.1 = Normal tt
                        /\ isinstance_Exception exc = true
                        /\ (exists e1 w1, callback self ctx args kwargs (world st) = (Fails e1, w1)
                                          /\ isinstance_Exception e1 = true)
                        /\ ~ silent_recovery self ctx args kwargs st)
        \/ (outcome = [] /\ run.1 = Normal tt
            /\ silent_recovery self ctx args kwargs st)
        \/ (outcome = [] /\ ~ silent_recovery self ctx args kwargs st
            /\ exists e, run.1 = Raised e /\ isinstance_Exception e = false))
    /\ dispatched "command" trace = 1
    /\ dispatched "command_complete" trace = 1
    /\ dispatched "command_success" trace + dispatched "command_error" trace <= 1
    /\ ~ (0 < dispatched "command_success" trace
          /\ 0 < dispatched "command_error" trace).
Proof.
  unfold silent_recovery. rewrite Command_invoke_table.
  destruct (callback self ctx args kwargs (world st)) as [[|e1] w1] eqn:Hcb.
  { exists [succeeded ctx]. simpl. split; [done|]. split; [by left|].
    vm_compute. repeat split; lia. }
  destruct (isinstance_Exception e1) eqn:He1.
  2:{ exists []. simpl. split; [done|]. split.
      - right; right; right. split; [done|]. split; [|by exists e1].
        intros (e & w & h & w2 & [= <- <-] & He & _). congruence.
      - vm_compute. repeat split; lia. }
  destruct (error_callback self) as [h|] eqn:Hh.
  2:{ exists [errored ctx e1]. simpl. split; [done|]. split.
      - right; left. exists e1. repeat split; try done.
        + by exists e1, w1.
        + by intros (e & w & h & w2 & _ & _ & [=] & _).
      - vm_compute. repeat split; lia. }
  destruct (h ctx e1 w1) as [[|e2] w2] eqn:Hrun.
  { exists []. simpl. split; [done|]. split.
    - right; right; left. split; [done|]. split; [done|]. by exists e1, w1, h, w2.
    - vm_compute. repeat split; lia. }
  destruct (isinstance_Exception e2) eqn:He2.
  - exists [errored ctx e2]. simpl. split; [done|]. split.
    + right; left. exists e2. repeat split; try done.
      * by exists e1, w1.
      * intros (e & w & h' & w2' & [= <- <-] & _ & [= <-] & Hdone). congruence.
    + vm_compute. repeat split; lia.
  - exists []. simpl. split; [done|]. split.
    + right; right; right. split; [done|]. split; [|by exists e2].
      intros (e & w & h' & w2' & [= <- <-] & _ & [= <-] & Hdone). congruence.
    + vm_compute. repeat split; lia.
Qed.

(** C2, as amended: when every failure of the handler and of the error
    handler is an instance of [Exception], [Command.invoke] raises nothing
    to its caller; it completes normally, and a failure of the handler
    went to the error handler, which completed, or into a [command_error]
    event. *)
Theorem C2_invoke_completes_normally self ctx args kwargs st :
  (forall w, raises_only_Exception (callback self ctx args kwargs w).1) ->
  (forall h e w, error_callback self = Some h -> raises_only_Exception (h ctx e w).1) ->
  (Command_invoke self ctx args kwargs st).1 = Normal tt
  /\ forall e1 w1,
       callback self ctx args kwargs (world st) = (Fails e1, w1) ->
       (exists h w2, error_callback self = Some h /\ h ctx e1 w1 = (Completes, w2))
       \/ (exists exc, errored ctx exc ∈ log (Command_invoke self ctx args kwargs st).2).
Proof.
  intros Hcb Herr. rewrite Command_invoke_table.
  specialize (Hcb (world st)).
  destruct (callback self ctx args kwargs (world st)) as [[|e1] w1]; simpl in *.
  { split; [done | intros ? ? [=]]. }
  rewrite Hcb.
  destruct (error_callback self) as [h|] eqn:Hh.
  2:{ split; [done|]. intros ? ? [= <- <-]. right. exists e1. simpl.
      rewrite elem_of_app. right. set_solver. }
  specialize (Herr h e1 w1 eq_refl).
  destruct (h ctx e1 w1) as [[|e2] w2] eqn:Hrun; simpl in *.
  { split; [done|]. intros ? ? [= <- <-]. left. by exists h, w2. }
  rewrite Herr. split; [done|]. intros ? ? [= <- <-]. right. exists e2. simpl.
  rewrite elem_of_app. right. set_solver.
Qed.

(** C3, as amended: when the handler raises an instance [E1] of
    [Exception], then with no error handler attached [command_error] is
    dispatched with [(ctx, E1)]; and with an error handler that raises an
    instance [E2] of [Exception], [command_error] is dispatched with
    [(ctx, E2)], and [E1], when it is another error, is not delivered. *)
Theorem C3_error_payload self ctx args kwargs st E1 w1 :
  callback self ctx args kwargs (world st) = (Fails E1, w1) ->
  isinstance_Exception E1 = true ->
  (error_callback self = None ->
     log (Command_invoke self ctx args kwargs st).2
       = log st ++ [started ctx; errored ctx E1; completed ctx])
  /\ (forall h E2 w2,
        error_callback self = Some h ->
        h ctx E1 w1 = (Fails E2, w2) ->
        isinstance_Exception E2 = true ->
        log (Command_invoke self ctx args kwargs st).2
          = log st ++ [started ctx; errored ctx E2; completed ctx]
        /\ (E2 <> E1 -> errored ctx E1 ∉ [started ctx; errored ctx E2; completed ctx])).
Proof.
  intros Hcb HE1. rewrite Command_invoke_table, Hcb, HE1. split.
  - by intros ->.
  - intros h E2 w2 -> -> ->. split; [done|].
    intros Hne Hin. apply Hne.
    rewrite !elem_of_cons in Hin.
    destruct Hin as [Hin | [Hin | [Hin | Hin]]]; try discriminate Hin.
    + by injection Hin.
    + by apply elem_of_nil in Hin.
Qed.

(** C4: when the handler raises and the attached error handler completes
    without raising, the events are exactly [command], [command_complete]:
    neither [command_success] nor [command_error] is dispatched. *)
Theorem C4_silent_recovery self ctx args kwargs st e1 w1 h w2 :
  callback self ctx args kwargs (world st) = (Fails e1, w1) ->
  error_callback self = Some h ->
  h ctx e1 w1 = (Completes, w2) ->
  let trace := [started ctx; completed ctx] in
  log (Command_invoke self ctx args kwargs st).2 = log st ++ trace
  /\ dispatched "command_success" trace = 0
  /\ dispatched "command_error" trace = 0
  /\ dispatched "command_complete" trace = 1
  /\ (isinstance_Exception e1 = true ->
      Command_invoke self ctx args kwargs st = (Normal tt, after st trace w2)).
Proof.
  intros Hcb Hh Hrun. rewrite Command_invoke_table, Hcb, Hh, Hrun.
  destruct (isinstance_Exception e1); repeat split; done.
Qed.

(** C5: when the handler completes without raising, the events are
    exactly [command], [command_success], [command_complete], and no
    [command_error] is dispatched. *)
Theorem C5_success_trace self ctx args kwargs st w1 :
  callback self ctx args kwargs (world st) = (Completes, w1) ->
  let trace := [started ctx; succeeded ctx; completed ctx] in
  Command_invoke self ctx args kwargs st = (Normal tt, after st trace w1)
  /\ log (Command_invoke self ctx args kwargs st).2 = log st ++ trace
  /\ dispatched "command_error" trace = 0.
Proof.
  intros Hcb. rewrite Command_invoke_table, Hcb. repeat split; done.
Qed.

End Pipeline.

(** * Properties of [Context] *)

Section ContextFrontEnd.
Context {U : Type}.
Implicit Types (self : Ref) (st : State (World U)) (cmd : Command (World U)).
Implicit Types (args : list PyValue) (kwargs : pydict PyValue).

Lemma def_not_returned {W} (body : Py W unit) (st : State W) : (def body st).1 <> Returned.
Proof. unfold def. by destruct (body st) as [[[]| |e] st']. Qed.

Lemma Context_invoke_not_returned self (c : Reference (World U)) args kwargs st :
  (Context_invoke self c args kwargs st).1 <> Returned.
Proof. unfold Context_invoke. apply def_not_returned. Qed.

(** [Context.invoke] stores its arguments and hands over to the command. *)
Lemma Context_invoke_command self cmd args kwargs st :
  Context_invoke self (CommandRef cmd) args kwargs st
  = Command_invoke cmd self args kwargs (handed_over self cmd args kwargs st).
Proof.
  unfold Context_invoke, bind, setattrs, def at 1, handed_over. simpl.
  rewrite Command_invoke_table. simpl.
  repeat (case_match; simplify_eq; try done).
Qed.

(** [reinvoke] on a context that holds arguments and the identity of a
    command: it is [invoke] with what the context holds. *)
Lemma Context_reinvoke_stored self st i cmd a k :
  heap st !!! self = mkContext (Some i) (Some a) (Some k) ->
  objects st !! i = Some cmd ->
  Context_reinvoke self st = Context_invoke self (CommandRef cmd) a k st.
Proof.
  intros Ho Hi. unfold Context_reinvoke, bind, getattrs, deref, def at 1. simpl.
  rewrite Ho. simpl. rewrite Hi.
  pose proof (Context_invoke_not_returned self (CommandRef cmd) a k st) as Hc.
  destruct (Context_invoke self (CommandRef cmd) a k st) as [c st'].
  by destruct c.
Qed.

(** C9, as amended: when, after [invoke(cmd, args, kwargs)] on a context,
    the context still holds [cmd], [args] and [kwargs] (no callback wrote
    other attributes into it), [reinvoke()] is the call
    [invoke(cmd, args, kwargs)] once more: same completion, same final
    state, and so the life cycle events of a full run again. *)
Theorem C9_reinvoke_replays_invoke self cmd args kwargs st :
  heap (Context_invoke self (CommandRef cmd) args kwargs st).2 !!! self
    = mkContext (Some (cmd_id cmd)) (Some args) (Some kwargs) ->
  let st1 := (Context_invoke self (CommandRef cmd) args kwargs st).2 in
  Context_reinvoke self st1 = Context_invoke self (CommandRef cmd) args kwargs st1
  /\ exists outcome : list Event,
       log (Context_reinvoke self st1).2
         = log st1 ++ [started self] ++ outcome ++ [completed self]
       /\ (outcome = [succeeded self]
           \/ (exists exc, outcome = [errored self exc])
           \/ outcome = []).
Proof.
  intros Hst st1.
  assert (Hobj : objects st1 !! cmd_id cmd = Some cmd).
  { unfold st1. rewrite Context_invoke_command, Command_invoke_objects. simpl.
    apply lookup_insert_eq. }
  assert (Hre : Context_reinvoke self st1
                = Context_invoke self (CommandRef cmd) args kwargs st1)
    by exact (Context_reinvoke_stored self st1 _ cmd args kwargs Hst Hobj).
  split; [exact Hre|].
  rewrite Hre, Context_invoke_command.
  destruct (Command_invoke_trace cmd self args kwargs (handed_over self cmd args kwargs st1))
    as (outcome & Hlog & Hcase).
  by exists outcome.
Qed.

(** C10: [reinvoke()] on a context as [__init__] leaves it raises a
    [TypeError] from unpacking [self.args]; the state it leaves is the
    state it found, so no event was dispatched and no attribute written,
    and the call does not complete normally. *)
Theorem C10_reinvoke_before_invoke self st :
  heap st !!! self = Context__init__ ->
  exists text,
    Context_reinvoke self st = (Raised (TypeError text), st)
    /\ log (Context_reinvoke self st).2 = log st
    /\ heap (Context_reinvoke self st).2 = heap st
    /\ (Context_reinvoke self st).1 <> Normal tt.
Proof.
  intros Hfresh. eexists.
  assert (Hrun : Context_reinvoke self st
    = (Raised (TypeError "invoke() argument after * must be an iterable, not NoneType"), st)).
  { unfold Context_reinvoke, def, bind, getattrs, deref. simpl. by rewrite Hfresh. }
  rewrite Hrun. by repeat split.
Qed.

End ContextFrontEnd.

(** * Properties of the dictionaries and of the sink *)

Section Dict.
Context {V : Type}.
Implicit Types (d : pydict V) (key : string) (value : V).

Lemma dict_lookup_None d key : dict_lookup d key = None <-> key ∉ dict_keys d.
Proof.
  unfold dict_keys. induction d as [|[k v] d IH]; simpl.
  - split; [intros _; apply not_elem_of_nil | done].
  - rewrite not_elem_of_cons. destruct (decide (k = key)) as [->|Hne].
    + split; [done | by intros [? _]].
    + rewrite IH. split; [by split | by intros [_ ?]].
Qed.


Lemma dict_lookup_app d1 d2 key :
  dict_lookup (d1 ++ d2) key
  = match dict_lookup d1 key with Some v => Some v | None => dict_lookup d2 key end.
Proof.
  induction d1 as [|[k v] d1 IH]; simpl; [done|].
  by destruct (decide (k = key)).
Qed.

(** A new key goes to the end of the dictionary. *)
Lemma dict_setitem_new d key value :
  key ∉ dict_keys d -> dict__setitem__ d key value = d ++ [(key, value)].
Proof.
  unfold dict_keys. induction d as [|[k v] d IH]; simpl; [done|].
  rewrite not_elem_of_cons. intros [Hne Hd].
  destruct (decide (k = key)) as [->|_]; [done|]. by rewrite IH.
Qed.

(** The entries that inserting [value] under each of [keys] adds. *)
Lemma dict_lookup_entries (keys : list string) key value :
  key ∈ keys -> dict_lookup (map (fun k => (k, value)) keys) key = Some value.
Proof.
  induction keys as [|k keys IH]; simpl.
  - intros Hin. by apply elem_of_nil in Hin.
  - intros Hin. destruct (decide (k = key)) as [|Hne]; [done|].
    apply elem_of_cons in Hin as [->|Hin]; [done | by apply IH].
Qed.

Lemma dict_keys_entries (keys : list string) value :
  dict_keys (map (fun k => (k, value)) keys) = keys.
Proof.
  unfold dict_keys. induction keys as [|k keys IH]; simpl; [done | by f_equal].
Qed.

End Dict.

Section Walk.
Context {W : Type}.
Implicit Types (seen : gset Ref) (values : list (Command W)) (id : Ref).

Lemma walk_seen_never seen values id :
  id ∈ seen -> length (filter (fun c => cmd_id c = id) (walk seen values)) = 0.
Proof.
  revert seen. induction values as [|c values IH]; intros seen Hin; simpl; [done|].
  destruct (decide (cmd_id c ∈ seen)) as [|Hnew]; [by apply IH|].
  rewrite filter_cons_False by (intros Heq; apply Hnew; by rewrite Heq).
  apply IH. rewrite elem_of_union. by right.
Qed.

(** An identity among the values that is not yet seen comes out once. *)
Lemma walk_unseen_once seen values id :
  id ∉ seen -> (exists c, c ∈ values /\ cmd_id c = id) ->
  length (filter (fun c => cmd_id c = id) (walk seen values)) = 1.
Proof.
  revert seen. induction values as [|c values IH]; intros seen Hout (c' & Hc' & Hid); simpl.
  { by apply elem_of_nil in Hc'. }
  destruct (decide (cmd_id c ∈ seen)) as [Hold|Hnew].
  - apply IH; [done|]. exists c'. split; [|done].
    apply elem_of_cons in Hc'. destruct Hc' as [Heq'|Hin']; [congruence | done].
  - destruct (decide (cmd_id c = id)) as [Heq|Hne].
    + rewrite filter_cons_True by done. simpl.
      rewrite walk_seen_never; [done|].
      rewrite elem_of_union, elem_of_singleton. by left.
    + rewrite filter_cons_False by done.
      apply IH.
      { rewrite not_elem_of_union, elem_of_singleton. split; [congruence | done]. }
      exists c'. split; [|done].
      apply elem_of_cons in Hc'. destruct Hc' as [Heq'|Hin']; [congruence | done].
Qed.

Lemma walk_subset seen values (c : Command W) :
  c ∈ walk seen values -> c ∈ values.
Proof.
  revert seen. induction values as [|c' values IH]; intros seen; simpl; [done|].
  destruct (decide (cmd_id c' ∈ seen)) as [|Hnew].
  - intros Hc. right. by apply (IH seen).
  - intros Hc. apply elem_of_cons in Hc. destruct Hc as [->|Hc]; [by left|].
    right. by apply (IH ({[cmd_id c']} ∪ seen)).
Qed.

(** No identity comes out twice. *)
Lemma walk_count seen values id :
  length (filter (fun c => cmd_id c = id) (walk seen values)) = 0
  \/ length (filter (fun c => cmd_id c = id) (walk seen values)) = 1.
Proof.
  revert seen. induction values as [|c values IH]; intros seen; simpl; [by left|].
  destruct (decide (cmd_id c ∈ seen)) as [|Hnew]; [apply IH|].
  destruct (decide (cmd_id c = id)) as [Heq|Hne].
  - right. rewrite filter_cons_True by done. simpl.
    rewrite walk_seen_never; [done|].
    rewrite elem_of_union, elem_of_singleton. by left.
  - rewrite filter_cons_False by done. apply IH.
Qed.

End Walk.

Section Sink.
Context {fold : Casefold} {W : Type}.
Implicit Types (self : CommandSink W) (command : Command W).

(** Registration into a plain [dict] under keys that are new and distinct
    appends one entry per key. *)
Lemma register_plain (d : pydict (Command W)) (keys : list string) command :
  NoDup keys -> (forall key, key ∈ keys -> key ∉ dict_keys d) ->
  foldl (fun acc key =>
           match acc with
           | Normal m => mapping__setitem__ m key command
           | other => other
           end)
        (Normal (PlainDict d)) keys
  = Normal (PlainDict (d ++ map (fun k => (k, command)) keys)).
Proof.
  revert d. induction keys as [|k keys IH]; intros d Hnd Hnew; simpl.
  - by rewrite app_nil_r.
  - apply NoDup_cons in Hnd as [Hk Hnd].
    rewrite dict_setitem_new by (apply Hnew; left).
    rewrite IH; [by rewrite <- app_assoc | done |].
    intros key Hkey. unfold dict_keys. rewrite fmap_app, not_elem_of_app. split.
    + apply Hnew. by right.
    + simpl. rewrite not_elem_of_cons. split; [intros -> ; done | apply not_elem_of_nil].
Qed.

(** C6, as amended: a command whose name and aliases are pairwise distinct
    and not yet keys of the mapping, registered into a case-sensitive
    sink, is inserted under its name and under each alias: the mapping
    gains exactly [n + 1] keys for [n] aliases, each of them resolves to
    that command, and [walk_commands] yields it exactly once. *)
Theorem C6_register_keys self command :
  is_case_insensitive (mapping self) = false ->
  NoDup (name command :: aliases command) ->
  (forall key, key ∈ name command :: aliases command ->
               key ∉ dict_keys (items (mapping self))) ->
  exists sink',
    CommandSink_register self command = Normal sink'
    /\ dict_keys (items (mapping sink'))
       = dict_keys (items (mapping self)) ++ name command :: aliases command
    /\ key_count sink' = key_count self + (length (aliases command) + 1)
    /\ (forall key, key ∈ name command :: aliases command ->
          CommandSink_get_command sink' key PyNone = inl command)
    /\ yields sink' command = 1.
Proof.
  destruct self as [[d|d]]; simpl; [|done]. intros _ Hnd Hnew.
  unfold CommandSink_register. cbn [mapping].
  rewrite register_plain by done.
  eexists. split; [reflexivity|]. cbn [mapping items].
  assert (Hkeys : dict_keys (d ++ map (fun k => (k, command)) (name command :: aliases command))
                  = dict_keys d ++ name command :: aliases command).
  { unfold dict_keys. rewrite fmap_app. f_equal. apply dict_keys_entries. }
  split; [exact Hkeys|]. split.
  { unfold key_count. cbn [mapping items]. rewrite Hkeys, length_app. simpl. lia. }
  split.
  - intros key Hkey. unfold CommandSink_get_command, mapping_get, dict_get. cbn [mapping].
    rewrite dict_lookup_app.
    rewrite (proj2 (dict_lookup_None d key) (Hnew key Hkey)).
    rewrite dict_lookup_entries; done.
  - unfold yields, CommandSink_walk_commands, mapping_values. cbn [mapping items].
    apply walk_unseen_once; [apply not_elem_of_empty|].
    exists command. split; [|done].
    unfold dict_values. rewrite fmap_app, elem_of_app. right. simpl. left.
Qed.


(** Registration into a case-insensitive sink stops at the first write. *)
Lemma CommandSink_register_case_insensitive self command :
  is_case_insensitive (mapping self) = true ->
  CommandSink_register self command = Raised (NameError "v").
Proof.
  destruct self as [[d|d]]; simpl; [done|]. intros _.
  unfold CommandSink_register. cbn [mapping foldl mapping__setitem__].
  change (CaseInsensitiveDict__setitem__ d (name command) command)
    with (Raised (A := pydict (Command W)) (NameError "v")).
  by induction (aliases command).
Qed.

End Sink.

(** * Further properties of the code *)

Section Further.
Context {fold : Casefold} {W : Type}.

(** A failure of the handler that is no instance of [Exception] is raised
    by [Command.invoke] to its caller, after [command_complete] and with
    no [command_error] event; the error handler is not run. *)
Theorem invoke_reraises_BaseException (self : Command W) ctx args kwargs st e1 w1 :
  callback self ctx args kwargs (world st) = (Fails e1, w1) ->
  isinstance_Exception e1 = false ->
  Command_invoke self ctx args kwargs st
    = (Raised e1, after st [started ctx; completed ctx] w1).
Proof. intros Hcb He1. by rewrite Command_invoke_table, Hcb, He1. Qed.

(** The same for the error handler: its failure outside [Exception]
    replaces the handler's and leaves [Command.invoke]. *)
Theorem invoke_reraises_from_error_handler (self : Command W) ctx args kwargs st
    e1 w1 h e2 w2 :
  callback self ctx args kwargs (world st) = (Fails e1, w1) ->
  isinstance_Exception e1 = true ->
  error_callback self = Some h ->
  h ctx e1 w1 = (Fails e2, w2) ->
  isinstance_Exception e2 = false ->
  Command_invoke self ctx args kwargs st
    = (Raised e2, after st [started ctx; completed ctx] w2).
Proof.
  intros Hcb He1 Hh Hrun He2.
  by rewrite Command_invoke_table, Hcb, He1, Hh, Hrun, He2.
Qed.

(** [walk_commands] yields no command twice, and yields every command that
    is a value of the mapping. *)
Theorem walk_commands_distinct (self : CommandSink W) :
  (forall id, length (filter (fun c => cmd_id c = id) (CommandSink_walk_commands self)) <= 1)
  /\ (forall c, c ∈ mapping_values (mapping self) -> yields self c = 1)
  /\ (forall c, c ∈ CommandSink_walk_commands self -> c ∈ mapping_values (mapping self)).
Proof.
  unfold yields, CommandSink_walk_commands. split; [|split].
  - intros id.
    destruct (walk_count (∅ : gset Ref) (mapping_values (mapping self)) id) as [-> | ->]; lia.
  - intros c Hc. apply walk_unseen_once; [apply not_elem_of_empty | by exists c].
  - intros c. apply walk_subset.
Qed.

End Further.

Lemma invoke_reraises_BaseException_witness :
  Command_invoke (failing KeyboardInterrupt) 7 [] [] initial
    = (Raised KeyboardInterrupt, after initial [started 7; completed 7] 1).
Proof.
  apply (invoke_reraises_BaseException (failing KeyboardInterrupt) 7 [] [] initial
           KeyboardInterrupt 1); reflexivity.
Defined.

Lemma invoke_reraises_from_error_handler_witness :
  Command_invoke (Command_error (failing (ValueError "bad")) (on_error_raises CancelledError))
                 7 [] [] initial
    = (Raised CancelledError, after initial [started 7; completed 7] 2).
Proof.
  apply (invoke_reraises_from_error_handler
           (Command_error (failing (ValueError "bad")) (on_error_raises CancelledError))
           7 [] [] initial (ValueError "bad") 1 (on_error_raises CancelledError)
           CancelledError 2); reflexivity.
Defined.

(** * The statements at concrete inputs *)

Example ascii_casefold_PING : ascii_casefold "PiNg" = "ping".
Proof. reflexivity. Qed.

(** C1, counterexample: the handler raises [KeyboardInterrupt].  Neither
    [command_success] nor [command_error] is dispatched, and there is no
    silent recovery: no error handler is run, and the call raises. *)
Lemma C1_counterexample :
  let run := Command_invoke (failing KeyboardInterrupt) 7 [] [] initial in
  dispatched "command_success" (log run.2) = 0
  /\ dispatched "command_error" (log run.2) = 0
  /\ ~ silent_recovery (failing KeyboardInterrupt) 7 [] [] initial
  /\ run.1 = Raised KeyboardInterrupt.
Proof.
  repeat split; try reflexivity.
  intros (e1 & w1 & h & w2 & _ & _ & Hh & _). discriminate Hh.
Qed.

(** C2, witness: a handler that raises [ValueError] and an error handler
    that raises [TypeError]; the call completes normally. *)
Lemma C2_invoke_completes_normally_witness :
  (Command_invoke failing_twice 7 [] [] initial).1 = Normal tt.
Proof.
  refine (proj1 (C2_invoke_completes_normally failing_twice 7 [] [] initial _ _)).
  - intros w. reflexivity.
  - intros h e w Hh. injection Hh as <-. reflexivity.
Defined.

(** C2, counterexample: the handler raises [KeyboardInterrupt], which no
    [except Exception] clause catches; [Command.invoke] raises it to its
    caller. *)
Lemma C2_counterexample :
  (Command_invoke (failing KeyboardInterrupt) 7 [] [] initial).1 = Raised KeyboardInterrupt
  /\ (Command_invoke (failing KeyboardInterrupt) 7 [] [] initial).1 <> Normal tt.
Proof. split; [reflexivity | discriminate]. Qed.

(** C3, witness: [ValueError("bad")] from the handler, first with no error
    handler, then with an error handler that raises [TypeError("worse")]. *)
Lemma C3_error_payload_witness :
  log (Command_invoke (failing (ValueError "bad")) 7 [] [] initial).2
    = [started 7; errored 7 (ValueError "bad"); completed 7]
  /\ log (Command_invoke failing_twice 7 [] [] initial).2
       = [started 7; errored 7 (TypeError "worse"); completed 7].
Proof.
  split.
  - refine (proj1 (C3_error_payload (failing (ValueError "bad")) 7 [] [] initial
                     (ValueError "bad") 1 _ _) _); reflexivity.
  - refine (proj1 (proj2 (C3_error_payload failing_twice 7 [] [] initial
                            (ValueError "bad") 1 _ _)
                     (on_error_raises (TypeError "worse")) (TypeError "worse") 2 _ _ _));
      reflexivity.
Defined.

(** C3, counterexample: the handler raises [CancelledError] and no error
    handler is attached; no [command_error] is dispatched for it. *)
Lemma C3_counterexample :
  callback (failing CancelledError) 7 [] [] (world initial) = (Fails CancelledError, 1)
  /\ error_callback (failing CancelledError) = None
  /\ log (Command_invoke (failing CancelledError) 7 [] [] initial).2
       = [started 7; completed 7]
  /\ dispatched "command_error"
       (log (Command_invoke (failing CancelledError) 7 [] [] initial).2) = 0.
Proof. repeat split; reflexivity. Qed.

(** C4, witness. *)
Lemma C4_silent_recovery_witness :
  let trace := [started 7; completed 7] in
  log (Command_invoke recovered 7 [] [] initial).2 = log initial ++ trace
  /\ dispatched "command_success" trace = 0
  /\ dispatched "command_error" trace = 0
  /\ dispatched "command_complete" trace = 1
  /\ (isinstance_Exception (ValueError "bad") = true ->
      Command_invoke recovered 7 [] [] initial = (Normal tt, after initial trace 2)).
Proof.
  apply (C4_silent_recovery recovered 7 [] [] initial (ValueError "bad") 1 on_error_ok 2);
    reflexivity.
Defined.

(** C5, witness: [invoke(ctx, 1, x="a")] on a handler that completes. *)
Lemma C5_success_trace_witness :
  let trace := [started 7; succeeded 7; completed 7] in
  Command_invoke ping 7 [PyInt 1] [("x", PyStr "a")] initial
    = (Normal tt, after initial trace 1)
  /\ log (Command_invoke ping 7 [PyInt 1] [("x", PyStr "a")] initial).2
       = log initial ++ trace
  /\ dispatched "command_error" trace = 0.
Proof.
  apply (C5_success_trace ping 7 [PyInt 1] [("x", PyStr "a")] initial 1).
  reflexivity.
Defined.

(** C6, witness: ["ping"] with the alias ["p"] into an empty
    case-sensitive sink. *)
Lemma C6_register_keys_witness :
  exists sink',
    CommandSink_register (fold := ascii_casefold) (CommandSink__init__ false) ping
      = Normal sink'
    /\ dict_keys (items (mapping sink')) = [] ++ ["ping"; "p"]
    /\ key_count sink' = 0 + (1 + 1)
    /\ (forall key, key ∈ ["ping"; "p"] ->
          CommandSink_get_command (fold := ascii_casefold) sink' key PyNone = inl ping)
    /\ yields sink' ping = 1.
Proof.
  apply (C6_register_keys (fold := ascii_casefold) (CommandSink__init__ false) ping).
  - reflexivity.
  - simpl. apply NoDup_cons. split; [|apply NoDup_singleton].
    rewrite list_elem_of_singleton. discriminate.
  - intros key _. apply not_elem_of_nil.
Defined.

(** C6, counterexample: a command built with the aliases [["p"; "p"]] has
    [n = 2] aliases, and its registration into an empty case-sensitive
    sink adds two keys, not three; and registering [ping] (one alias) into
    a sink that holds it already adds no key. *)
Lemma C6_counterexample :
  (exists sink',
     CommandSink_register (fold := ascii_casefold) (CommandSink__init__ false) twice_p
       = Normal sink'
     /\ length (aliases twice_p) = 2
     /\ key_count (CommandSink__init__ (W := nat) false) = 0
     /\ key_count sink' = 2
     /\ key_count sink'
        <> key_count (CommandSink__init__ (W := nat) false) + (length (aliases twice_p) + 1))
  /\ (exists sink' sink'',
        CommandSink_register (fold := ascii_casefold) (CommandSink__init__ false) ping
          = Normal sink'
        /\ CommandSink_register (fold := ascii_casefold) sink' ping = Normal sink''
        /\ key_count sink'' = key_count sink'
        /\ key_count sink'' <> key_count sink' + (length (aliases ping) + 1)).
Proof.
  split.
  - eexists. split; [reflexivity|]. repeat split. vm_compute. lia.
  - eexists _, _. split; [reflexivity|]. split; [reflexivity|].
    split; [reflexivity|]. vm_compute. lia.
Qed.

(** C7: on an empty [CaseInsensitiveDict], the write [d["Ping"] = 1] ends
    in [NameError] and stores nothing, so the read [d["ping"]] that
    follows ends in [KeyError]. *)
Theorem C7_write_raises_NameError :
  CaseInsensitiveDict__setitem__ (fold := ascii_casefold) [] "Ping" (PyInt 1)
    = Raised (NameError "v")
  /\ CaseInsensitiveDict__getitem__ (fold := ascii_casefold) ([] : pydict PyValue) "ping"
     = Raised (KeyError "ping").
Proof. split; reflexivity. Qed.


(** C9, witness: [pong], whose handler leaves the contexts alone. *)
Lemma C9_reinvoke_replays_invoke_witness :
  let st1 := (Context_invoke 7 (CommandRef pong) [PyInt 1] [("x", PyStr "a")] no_contexts).2 in
  Context_reinvoke 7 st1 = Context_invoke 7 (CommandRef pong) [PyInt 1] [("x", PyStr "a")] st1.
Proof.
  refine (proj1 (C9_reinvoke_replays_invoke 7 pong [PyInt 1] [("x", PyStr "a")] no_contexts _)).
  reflexivity.
Defined.

(** C9, counterexample: the handler of [redirect] invokes [pong] on its
    own context.  After [invoke(redirect, 1, x="a")] the context holds
    [pong] and no arguments, so [reinvoke()] runs [pong] (count 11), where
    [invoke(redirect, 1, x="a")] again runs [redirect] (count 2). *)
Lemma C9_counterexample :
  let st1 := (Context_invoke 7 (CommandRef redirect) [PyInt 1] [("x", PyStr "a")] knows_pong).2 in
  heap st1 !!! 7 = mkContext (Some (cmd_id pong)) (Some []) (Some [])
  /\ user (world (Context_reinvoke 7 st1).2) = 11
  /\ user (world (Context_invoke 7 (CommandRef redirect) [PyInt 1] [("x", PyStr "a")] st1).2) = 2
  /\ Context_reinvoke 7 st1
     <> Context_invoke 7 (CommandRef redirect) [PyInt 1] [("x", PyStr "a")] st1.
Proof.
  intros st1.
  assert (H1 : user (world (Context_reinvoke 7 st1).2) = 11) by reflexivity.
  assert (H2 : user (world (Context_invoke 7 (CommandRef redirect) [PyInt 1]
                              [("x", PyStr "a")] st1).2) = 2) by reflexivity.
  split; [reflexivity|]. split; [exact H1|]. split; [exact H2|].
  intros Heq. rewrite Heq in H1. rewrite H1 in H2. discriminate H2.
Qed.

(** C10, witness: [Context().reinvoke()] from the initial state. *)
Lemma C10_reinvoke_before_invoke_witness :
  let self := fresh (dom (heap no_contexts)) in
  let st := (Context_new no_contexts).2 in
  exists text,
    Context_reinvoke self st = (Raised (TypeError text), st)
    /\ log (Context_reinvoke self st).2 = log st
    /\ heap (Context_reinvoke self st).2 = heap st
    /\ (Context_reinvoke self st).1 <> Normal tt.
Proof.
  apply (C10_reinvoke_before_invoke (fresh (dom (heap no_contexts)))
           (Context_new no_contexts).2).
  vm_compute. reflexivity.
Defined.

(** * The reading and removing methods of [CaseInsensitiveDict] *)

Section DictRemoval.
Context {V : Type}.
Implicit Types (d : pydict V) (key : string).

Lemma dict_lookup_remove d key : dict_lookup (dict_remove d key) key = None.
Proof.
  unfold dict_remove, pydict in *. induction d as [|[k v] d IH]; [done|].
  destruct (decide (k = key)) as [->|Hne].
  - by rewrite filter_cons_False by (simpl; intros Hk; by apply Hk).
  - rewrite filter_cons_True by done. simpl. by rewrite decide_False.
Qed.

Lemma dict_lookup_remove_ne d key key' :
  key <> key' -> dict_lookup (dict_remove d key) key' = dict_lookup d key'.
Proof.
  intros Hne. unfold dict_remove, pydict in *. induction d as [|[k v] d IH]; [done|].
  destruct (decide (k = key)) as [->|Hk].
  - rewrite filter_cons_False by (simpl; intros Hk; by apply Hk).
    simpl. by rewrite decide_False.
  - rewrite filter_cons_True by done. simpl. by rewrite IH.
Qed.


(** With keys that are unique, as those of a [dict] are, every entry is
    the one its key finds. *)
Lemma dict_lookup_entry d key (v : V) :
  NoDup (dict_keys d) -> (key, v) ∈ d -> dict_lookup d key = Some v.
Proof.
  unfold dict_keys. induction d as [|[k v'] d IH]; simpl.
  - intros _ Hin. by apply elem_of_nil in Hin.
  - intros Hnd Hin. apply NoDup_cons in Hnd as [Hk Hnd].
    apply elem_of_cons in Hin. destruct Hin as [[= -> ->]|Hin].
    + by rewrite decide_True.
    + destruct (decide (k = key)) as [->|_]; [|by apply IH].
      exfalso. apply Hk. apply list_elem_of_fmap. by exists (key, v).
Qed.

End DictRemoval.

Section CaseInsensitiveReads.
Context {fold : Casefold} {V : Type}.
Implicit Types (d : pydict V) (key : string).

(** The three reading methods give one answer per folded key: spellings
    that fold alike read alike, and [__contains__], [__getitem__] and
    [get] agree on whether the key is there and on its value; a key that
    is not there gives [KeyError] with the folded key from [__getitem__]
    and the default from [get]. *)
Theorem CaseInsensitiveDict_reads_agree {D} d (k1 k2 : string) (default : D) :
  casefold k1 = casefold k2 ->
  CaseInsensitiveDict__getitem__ d k1 = CaseInsensitiveDict__getitem__ d k2
  /\ CaseInsensitiveDict__contains__ d k1 = CaseInsensitiveDict__contains__ d k2
  /\ CaseInsensitiveDict_get d k1 default = CaseInsensitiveDict_get d k2 default
  /\ ((CaseInsensitiveDict__contains__ d k1 = true
       /\ exists v, CaseInsensitiveDict__getitem__ d k2 = Normal v
                    /\ CaseInsensitiveDict_get d k2 default = inl v)
      \/ (CaseInsensitiveDict__contains__ d k1 = false
          /\ CaseInsensitiveDict__getitem__ d k2 = Raised (KeyError (casefold k1))
          /\ CaseInsensitiveDict_get d k2 default = inr default)).
Proof.
  intros Hfold.
  unfold CaseInsensitiveDict__getitem__, CaseInsensitiveDict__contains__,
    CaseInsensitiveDict_get, dict__getitem__, dict__contains__, dict_get.
  rewrite <- Hfold.
  destruct (dict_lookup d (casefold k1)) as [v|] eqn:Hd.
  - repeat split; try done. left. split.
    + apply bool_decide_eq_true. by exists v.
    + by exists v.
  - repeat split; try done. right. split; [|done].
    apply bool_decide_eq_false. by intros [v Hv].
Qed.

(** [pop] through one spelling returns what [get] returns for every
    spelling that folds alike, and never raises; after it no such spelling
    is contained, and keys that fold otherwise read as before.  For a key
    that is not there the dictionary is left as it is.  [__delitem__]
    removes the same entry, and raises [KeyError] with the folded key when
    there is none. *)
Theorem CaseInsensitiveDict_pop_removes {D} d (k k' : string) (default : D) :
  casefold k = casefold k' ->
  let popped := CaseInsensitiveDict_pop d k default in
  popped.1 = CaseInsensitiveDict_get d k' default
  /\ CaseInsensitiveDict__contains__ popped.2 k' = false
  /\ (forall k'', casefold k'' <> casefold k ->
        CaseInsensitiveDict_get popped.2 k'' default = CaseInsensitiveDict_get d k'' default)
  /\ (CaseInsensitiveDict__contains__ d k' = false -> popped.2 = d)
  /\ CaseInsensitiveDict__delitem__ d k'
     = if CaseInsensitiveDict__contains__ d k then Normal popped.2
       else Raised (KeyError (casefold k)).
Proof.
  intros Hfold.
  unfold CaseInsensitiveDict_pop, CaseInsensitiveDict__contains__, CaseInsensitiveDict_get,
    CaseInsensitiveDict__delitem__, dict_pop, dict__contains__, dict_get, dict__delitem__.
  rewrite <- Hfold. simpl.
  destruct (dict_lookup d (casefold k)) as [v|] eqn:Hd; cbn [fst snd].
  - split; [done|]. split.
    { apply bool_decide_eq_false. rewrite dict_lookup_remove. by intros [? ?]. }
    split.
    { intros k'' Hne. by rewrite dict_lookup_remove_ne. }
    split.
    { intros Hc. apply bool_decide_eq_false in Hc. exfalso. apply Hc. by exists v. }
    rewrite bool_decide_eq_true_2; [done | by exists v].
  - split; [done|]. split.
    { apply bool_decide_eq_false. rewrite Hd. by intros [? ?]. }
    split; [done|]. split; [done|].
    rewrite bool_decide_eq_false_2; [done | by intros [? ?]].
Qed.

(** An entry whose key is not in folded form cannot be read: when folding
    is idempotent and [key] changes under it, every reading method answers
    as if the entry were not stored, also for [key] itself. *)
Theorem unfolded_key_unreachable {D} d (key : string) (default : D) :
  (forall k, casefold (casefold k) = casefold k) ->
  casefold key <> key ->
  forall k,
    CaseInsensitiveDict_get d k default = CaseInsensitiveDict_get (dict_remove d key) k default
    /\ CaseInsensitiveDict__getitem__ d k = CaseInsensitiveDict__getitem__ (dict_remove d key) k
    /\ CaseInsensitiveDict__contains__ d k
       = CaseInsensitiveDict__contains__ (dict_remove d key) k.
Proof.
  intros Hidem Hkey k.
  assert (Hne : key <> casefold k).
  { intros ->. apply Hkey. apply Hidem. }
  unfold CaseInsensitiveDict_get, CaseInsensitiveDict__getitem__,
    CaseInsensitiveDict__contains__, dict_get, dict__getitem__, dict__contains__.
  by rewrite (dict_lookup_remove_ne d key (casefold k) Hne).
Qed.

End CaseInsensitiveReads.

(** * Lookup and enumeration of a sink *)

Section SinkViews.
Context {fold : Casefold} {W : Type}.
Implicit Types (self : CommandSink W).

Lemma walk_sublist (seen : gset Ref) (values : list (Command W)) :
  sublist (walk seen values) values.
Proof.
  revert seen. induction values as [|c values IH]; intros seen; simpl; [done|].
  destruct (decide (cmd_id c ∈ seen)).
  - apply sublist_cons. apply IH.
  - apply sublist_skip. apply IH.
Qed.


(** In a case-sensitive sink every command that [walk_commands] yields is
    the answer of [get_command] for one of the keys of the mapping. *)
Theorem walked_command_is_found self (c : Command W) :
  is_case_insensitive (mapping self) = false ->
  NoDup (dict_keys (items (mapping self))) ->
  c ∈ CommandSink_walk_commands self ->
  exists key, key ∈ dict_keys (items (mapping self))
              /\ CommandSink_get_command self key PyNone = inl c.
Proof.
  destruct self as [[d|d]]; simpl; [|done]. intros _ Hnd Hc.
  unfold CommandSink_walk_commands, mapping_values in Hc. cbn [mapping items] in Hc.
  apply walk_subset in Hc. unfold dict_values in Hc.
  apply list_elem_of_fmap in Hc as ([key c'] & -> & Hin). simpl.
  exists key. split.
  - unfold dict_keys. apply list_elem_of_fmap. by exists (key, c').
  - unfold CommandSink_get_command, mapping_get, dict_get. cbn [mapping].
    by rewrite (dict_lookup_entry d key c' Hnd Hin).
Qed.

(** [walk_commands] keeps the order of the mapping's values and drops
    only repetitions: its result is a subsequence of the values, it is
    never longer than the mapping has keys, it starts with the first value,
    and it is empty only for an empty mapping.  [commands] is that list. *)
Theorem walk_commands_in_order self :
  sublist (CommandSink_walk_commands self) (mapping_values (mapping self))
  /\ length (CommandSink_commands self) <= key_count self
  /\ head (CommandSink_walk_commands self) = head (mapping_values (mapping self))
  /\ (CommandSink_commands self = [] <-> items (mapping self) = []).
Proof.
  unfold CommandSink_commands, CommandSink_walk_commands, key_count, mapping_values,
    dict_values, dict_keys.
  split; [apply walk_sublist|]. split.
  { etransitivity; [apply sublist_length, walk_sublist|]. by rewrite !length_fmap. }
  destruct (items (mapping self)) as [|[k c] d]; simpl; [done|].
  rewrite decide_False by apply not_elem_of_empty. done.
Qed.

End SinkViews.

(** * [Bot] *)

Section BotInit.
Context {fold : Casefold} {W : Type}.

(** [Bot(prefix, case_insensitive=b)] is a sink with no command, whose
    mapping is of the class that [b] chooses and whose attributes are the
    arguments; [Bot(prefix, case_insensitive=b, **kwargs)] with any further
    keyword raises [TypeError]. *)
Theorem Bot_init_modes (p : Prefix) (b : bool) (kwargs : pydict PyValue) :
  match Bot__init__ (W := W) p b kwargs with
  | Normal self =>
      kwargs = []
      /\ is_case_insensitive (bot_mapping self) = b
      /\ _default_case_insensitive self = b
      /\ prefix self = p
      /\ CommandSink_commands (bot_sink self) = []
      /\ (forall name, CommandSink_get_command (bot_sink self) name PyNone = inr PyNone)
  | Returned => False
  | Raised e => kwargs <> [] /\ exc_class e = "TypeError"
  end.
Proof.
  destruct kwargs as [|[key v] kwargs]; simpl; [|done].
  destruct b; repeat split; done.
Qed.

End BotInit.

(** * More on the pipeline and on [Context] *)

Section PipelineMore.
Context {W : Type}.
Implicit Types (self : Command W) (ctx : Ref) (st : State W).
Implicit Types (args : list PyValue) (kwargs : pydict PyValue).

(** [Command.error] changes nothing for an invocation whose handler
    completes or raises outside [Exception]: the error handler is not run,
    and the call ends as for the command without it.  The command keeps
    its identity, name and aliases, and a second [error] replaces the
    first handler. *)
Theorem error_handler_idle self (f g : ErrorCallback W) ctx args kwargs st :
  match (callback self ctx args kwargs (world st)).1 with
  | Completes => True
  | Fails e => isinstance_Exception e = false
  end ->
  Command_invoke (Command_error self f) ctx args kwargs st
    = Command_invoke self ctx args kwargs st
  /\ (cmd_id (Command_error self f), name (Command_error self f),
      aliases (Command_error self f))
     = (cmd_id self, name self, aliases self)
  /\ Command_error (Command_error self f) g = Command_error self g.
Proof.
  intros Hcb. split; [|done].
  rewrite !Command_invoke_table. simpl.
  destruct (callback self ctx args kwargs (world st)) as [[|e1] w1]; simpl in *; [done|].
  by rewrite Hcb.
Qed.

(** Every listed event has the context first. *)
Ltac context_first :=
  let ev := fresh "ev" in let Hev := fresh "Hev" in
  intros ev Hev;
  repeat (apply elem_of_cons in Hev as [->|Hev]; [done|]);
  by apply elem_of_nil in Hev.

(** A trace with no [command_error] holds no error. *)
Ltac plain_trace :=
  eexists; split; [reflexivity|]; split; [context_first|];
  let ev := fresh "ev" in let exc := fresh "exc" in
  let Hev := fresh "Hev" in let Hexc := fresh "Hexc" in
  intros ev exc Hev Hexc; exfalso;
  repeat (apply elem_of_cons in Hev as [->|Hev];
          [ simpl in Hexc; apply list_elem_of_singleton in Hexc; discriminate |]);
  by apply elem_of_nil in Hev.

(** A trace [command], [command_error], [command_complete]: the error is
    the one of the middle event. *)
Ltac error_trace :=
  eexists; split; [reflexivity|]; split; [context_first|];
  let ev := fresh "ev" in let exc := fresh "exc" in
  let Hev := fresh "Hev" in let Hexc := fresh "Hexc" in
  intros ev exc Hev Hexc;
  apply elem_of_cons in Hev as [->|Hev];
    [ simpl in Hexc; apply list_elem_of_singleton in Hexc; discriminate |];
  apply elem_of_cons in Hev as [->|Hev];
    [ simpl in Hexc; apply elem_of_cons in Hexc as [Hexc|Hexc]; [discriminate|];
      apply list_elem_of_singleton in Hexc; injection Hexc as ->;
      split; [done|]; split; [done|]
    | apply list_elem_of_singleton in Hev as ->; simpl in Hexc;
      apply list_elem_of_singleton in Hexc; discriminate ].

(** The error in a [command_error] event is one a callback raised: the
    handler's, when no error handler is attached, or else the error
    handler's; it is an instance of [Exception], and every event of the
    invocation has the context as its first argument. *)
Theorem command_error_is_raised self ctx args kwargs st :
  exists trace : list Event,
    log (Command_invoke self ctx args kwargs st).2 = log st ++ trace
    /\ (forall ev, ev ∈ trace -> head (payload ev) = Some (PContext ctx))
    /\ (forall ev exc, ev ∈ trace -> PError exc ∈ payload ev ->
          ev = errored ctx exc
          /\ isinstance_Exception exc = true
          /\ ((error_callback self = None
               /\ exists w1, callback self ctx args kwargs (world st) = (Fails exc, w1))
              \/ (exists h e1 w1 w2,
                    error_callback self = Some h
                    /\ callback self ctx args kwargs (world st) = (Fails e1, w1)
                    /\ h ctx e1 w1 = (Fails exc, w2)))).
Proof.
  rewrite Command_invoke_table.
  destruct (callback self ctx args kwargs (world st)) as [[|e1] w1] eqn:Hcb.
  { plain_trace. }
  destruct (isinstance_Exception e1) eqn:He1; [|plain_trace].
  destruct (error_callback self) as [h|] eqn:Hh.
  2:{ error_trace. left. split; [done|]. by exists w1. }
  destruct (h ctx e1 w1) as [[|e2] w2] eqn:Hrun; [plain_trace|].
  destruct (isinstance_Exception e2) eqn:He2; [|plain_trace].
  error_trace. right. by exists h, e1, w1, w2.
Qed.

End PipelineMore.

Section ContextMore.
Context {U : Type}.
Implicit Types (self : Ref) (st : State (World U)) (cmd : Command (World U)).
Implicit Types (args : list PyValue) (kwargs : pydict PyValue).

(** For a command whose callbacks leave the contexts as they are,
    [Context.invoke] changes the contexts by the write of [command],
    [args] and [kwargs] into its own context and by nothing else, however
    the call ends; after it [reinvoke()] is the same [invoke] again. *)
Theorem Context_invoke_writes_self self cmd args kwargs st :
  (forall ctx a k w, contexts (callback cmd ctx a k w).2 = contexts w) ->
  (forall h ctx e w, error_callback cmd = Some h -> contexts (h ctx e w).2 = contexts w) ->
  let st1 := (Context_invoke self (CommandRef cmd) args kwargs st).2 in
  heap st1 = <[self := mkContext (Some (cmd_id cmd)) (Some args) (Some kwargs)]> (heap st)
  /\ Context_reinvoke self st1 = Context_invoke self (CommandRef cmd) args kwargs st1.
Proof.
  intros Hcb Herr st1.
  assert (Hheap : heap st1
    = <[self := mkContext (Some (cmd_id cmd)) (Some args) (Some kwargs)]> (heap st)).
  { unfold st1, heap. rewrite Context_invoke_command, Command_invoke_table.
    pose proof (Hcb self args kwargs (world (handed_over self cmd args kwargs st))) as H1.
    destruct (callback cmd self args kwargs (world (handed_over self cmd args kwargs st)))
      as [[|e1] w1]; simpl in *; [done|].
    destruct (isinstance_Exception e1); simpl; [|done].
    destruct (error_callback cmd) as [h|] eqn:Hh; simpl; [|done].
    pose proof (Herr h self e1 w1 eq_refl) as H2.
    destruct (h self e1 w1) as [[|e2] w2]; simpl in *; [congruence|].
    destruct (isinstance_Exception e2); simpl; congruence. }
  split; [exact Hheap|].
  apply (Context_reinvoke_stored self st1 (cmd_id cmd) cmd args kwargs).
  - rewrite Hheap. apply lookup_total_insert_eq.
  - unfold st1. rewrite Context_invoke_command, Command_invoke_objects. simpl.
    apply lookup_insert_eq.
Qed.

(** [reinvoke()] is [invoke] with what the context holds when it is
    called: for a context that holds arguments and the identity of a
    command, it is [invoke] of that command with those arguments, whoever
    stored them. *)
Theorem reinvoke_replays_stored self st (id : Ref) cmd args kwargs :
  heap st !!! self = mkContext (Some id) (Some args) (Some kwargs) ->
  objects st !! id = Some cmd ->
  Context_reinvoke self st = Context_invoke self (CommandRef cmd) args kwargs st
  /\ Context_reinvoke self st
     = Command_invoke cmd self args kwargs (handed_over self cmd args kwargs st).
Proof.
  intros Hself Hid.
  rewrite (Context_reinvoke_stored self st id cmd args kwargs Hself Hid).
  split; [done | apply Context_invoke_command].
Qed.

End ContextMore.

(** * [utils.py] *)

Section ErrorString.
Context {space : Isspace}.

Lemma append_empty_r (s : string) : s +:+ EmptyString = s.
Proof.
  induction s as [|c s IH]; [done|].
  change (String c s +:+ EmptyString) with (String c (s +:+ EmptyString)).
  by rewrite IH.
Qed.

Lemma lstrip_blank (s : string) : blank s = true -> lstrip s = EmptyString.
Proof.
  induction s as [|c s IH]; simpl; [done|].
  destruct (isspace c); simpl; [exact IH | done].
Qed.

Lemma blank_lstrip (s : string) : blank (lstrip s) = blank s.
Proof.
  induction s as [|c s IH]; simpl; [done|].
  destruct (isspace c) eqn:Hc; simpl; [exact IH | by rewrite Hc].
Qed.

Lemma rstrip_empty (s : string) : rstrip s = EmptyString <-> blank s = true.
Proof.
  induction s as [|c s IH]; simpl; [done|].
  destruct (rstrip s) as [|c' r] eqn:Hr.
  - destruct (isspace c); simpl; [|done].
    split; [intros _; by apply IH | done].
  - split; [done|]. intros Hb. apply andb_true_iff in Hb as [_ Hb].
    by apply IH in Hb.
Qed.

(** The stripped text is empty exactly for a text of white space only. *)
Lemma strip_bool (s : string) : str_bool (strip s) = negb (blank s).
Proof.
  unfold strip. rewrite <- (blank_lstrip s).
  destruct (rstrip (lstrip s)) as [|c r] eqn:Hr; simpl.
  - apply rstrip_empty in Hr. by rewrite Hr.
  - destruct (blank (lstrip s)) eqn:Hb; [|done].
    apply rstrip_empty in Hb. by rewrite Hb in Hr.
Qed.

(** [to_error_string] gives the class name alone when the text of the
    error is empty or all white space, and otherwise the class name, a
    colon and a space, and the text as it is, white space around it
    included; either way the result starts with the class name. *)
Theorem to_error_string_cases (exc : BaseException) :
  to_error_string exc
    = (if blank (exc_text exc) then exc_class exc
       else exc_class exc +:+ ": " +:+ exc_text exc)
  /\ exists rest, to_error_string exc = exc_class exc +:+ rest.
Proof.
  unfold to_error_string. rewrite strip_bool.
  destruct (blank (exc_text exc)); simpl.
  - split; [done|]. exists EmptyString. by rewrite append_empty_r.
  - split; [done|]. by eexists.
Qed.

End ErrorString.

Section EnsureAsync.
Context {W A R : Type}.
Implicit Types (func : Function W A R) (body : A -> W -> Result R * W).

(** Awaiting a call of the wrapper runs the function: an awaitable it
    returns is awaited, a plain value is the result, and what it raises is
    raised. *)
Lemma await_ensure_async func (a : A) (w : W) :
  await_call (ensure_async func) a w
  = match func a w with
    | (Gives (Awaitable coro), w') => coro w'
    | (Gives (Plain r), w') => (Gives r, w')
    | (Throws e, w') => (Throws e, w')
    end.
Proof.
  unfold await_call, ensure_async, async_def. simpl.
  by destruct (func a w) as [[[r|coro]|e] w'].
Qed.

(** [ensure_async]: an [async def] function behaves under the wrapper as
    without it; a synchronous function, whose bare call cannot be awaited
    when it returns, gives under the wrapper its value or its exception;
    wrapping twice is as wrapping once; and a call of the wrapper alone
    runs nothing of the function. *)
Theorem ensure_async_behaviour func body (a : A) (w : W) :
  await_call (ensure_async (async_def body)) a w = await_call (async_def body) a w
  /\ await_call (ensure_async (plain_def body)) a w = body a w
  /\ (forall r w', body a w = (Gives r, w') ->
        exists text, await_call (plain_def body) a w = (Throws (TypeError text), w'))
  /\ await_call (ensure_async (ensure_async func)) a w = await_call (ensure_async func) a w
  /\ exists coro, ensure_async func a w = (Gives (Awaitable coro), w).
Proof.
  split; [by rewrite await_ensure_async|]. split.
  { rewrite await_ensure_async. unfold plain_def. by destruct (body a w) as [[r|e] w']. }
  split.
  { intros r w' Hbody. unfold await_call, plain_def. rewrite Hbody. by eexists. }
  split; [|by eexists].
  rewrite (await_ensure_async (ensure_async func)). reflexivity.
Qed.

End EnsureAsync.

Section SyncHandlers.
Context {W R : Type}.
Implicit Types (func : Function W (Ref * list PyValue * pydict PyValue) R).

(** A command whose callback is a synchronous function that returns: the
    [await] of line 98 raises [TypeError] after the function has run, and
    with no error handler the invocation ends in [command_error]; with
    the function wrapped by [ensure_async] the same invocation ends in
    [command_success], in the same world. *)
Theorem sync_handler_needs_ensure_async (bare wrapped : Command W) func ctx args kwargs
    (st : State W) (r : R) (w1 : W) :
  callback bare = as_callback func ->
  callback wrapped = as_callback (ensure_async func) ->
  error_callback bare = None ->
  func (ctx, args, kwargs) (world st) = (Gives (Plain r), w1) ->
  (exists text,
     Command_invoke bare ctx args kwargs st
     = (Normal tt, after st [started ctx; errored ctx (TypeError text); completed ctx] w1))
  /\ Command_invoke wrapped ctx args kwargs st
     = (Normal tt, after st [started ctx; succeeded ctx; completed ctx] w1).
Proof.
  intros Hbare Hwrapped Herr Hfunc. split.
  - eexists. rewrite Command_invoke_table, Hbare, Herr.
    unfold as_callback, await_call. rewrite Hfunc. reflexivity.
  - rewrite Command_invoke_table, Hwrapped.
    unfold as_callback. rewrite await_ensure_async, Hfunc. reflexivity.
Qed.

End SyncHandlers.

(** * The further statements at concrete inputs *)

Lemma casefold_ascii_idempotent (c : Ascii.ascii) :
  casefold_ascii (casefold_ascii c) = casefold_ascii c.
Proof. destruct c as [[] [] [] [] [] [] [] []]; reflexivity. Qed.

Lemma ascii_casefold_idempotent (s : string) :
  ascii_casefold (ascii_casefold s) = ascii_casefold s.
Proof.
  induction s as [|c s IH]; simpl; [done|].
  by rewrite casefold_ascii_idempotent, IH.
Qed.

Example to_error_string_bad :
  to_error_string (space := ascii_isspace) (ValueError "bad") = "ValueError: bad"
  /\ to_error_string (space := ascii_isspace) (ValueError "  ") = "ValueError".
Proof. split; reflexivity. Qed.

Lemma CaseInsensitiveDict_reads_agree_witness :
  CaseInsensitiveDict__getitem__ (fold := ascii_casefold) unfolded_dict "PONG"
    = CaseInsensitiveDict__getitem__ (fold := ascii_casefold) unfolded_dict "Pong"
  /\ CaseInsensitiveDict__getitem__ (fold := ascii_casefold) unfolded_dict "Pong"
     = Normal (PyInt 2).
Proof.
  split; [|reflexivity].
  refine (proj1 (CaseInsensitiveDict_reads_agree (fold := ascii_casefold)
                   unfolded_dict "PONG" "Pong" PyNone _)).
  reflexivity.
Defined.

Lemma CaseInsensitiveDict_pop_removes_witness :
  let popped := CaseInsensitiveDict_pop (fold := ascii_casefold) unfolded_dict "PONG" PyNone in
  popped.1 = CaseInsensitiveDict_get (fold := ascii_casefold) unfolded_dict "pong" PyNone
  /\ CaseInsensitiveDict__contains__ (fold := ascii_casefold) popped.2 "pong" = false.
Proof.
  intros popped.
  pose proof (CaseInsensitiveDict_pop_removes (fold := ascii_casefold)
                unfolded_dict "PONG" "pong" PyNone eq_refl) as (Hget & Hgone & _).
  split; [exact Hget | exact Hgone].
Defined.

Lemma unfolded_key_unreachable_witness :
  CaseInsensitiveDict_get (fold := ascii_casefold) unfolded_dict "Ping" PyNone
    = CaseInsensitiveDict_get (fold := ascii_casefold) (dict_remove unfolded_dict "Ping")
        "Ping" PyNone
  /\ CaseInsensitiveDict_get (fold := ascii_casefold) unfolded_dict "Ping" PyNone = inr PyNone.
Proof.
  split; [|reflexivity].
  refine (proj1 (unfolded_key_unreachable (fold := ascii_casefold) unfolded_dict "Ping" PyNone
                   ascii_casefold_idempotent _ "Ping")).
  discriminate.
Defined.


Lemma walked_command_is_found_witness :
  exists key, key ∈ dict_keys (items (mapping plain_sink))
              /\ CommandSink_get_command (fold := ascii_casefold) plain_sink key PyNone
                 = inl ping.
Proof.
  apply (walked_command_is_found (fold := ascii_casefold) plain_sink ping).
  - reflexivity.
  - simpl. apply NoDup_cons. split; [|apply NoDup_singleton].
    rewrite list_elem_of_singleton. discriminate.
  - vm_compute. left.
Defined.

Lemma error_handler_idle_witness :
  Command_invoke (Command_error ping on_error_ok) 7 [] [] initial
    = Command_invoke ping 7 [] [] initial.
Proof.
  refine (proj1 (error_handler_idle ping on_error_ok on_error_ok 7 [] [] initial _)).
  exact I.
Defined.

Lemma Context_invoke_writes_self_witness :
  let st1 := (Context_invoke 7 (CommandRef pong) [PyInt 1] [("x", PyStr "a")] no_contexts).2 in
  heap st1 = <[7 := mkContext (Some 11) (Some [PyInt 1]) (Some [("x", PyStr "a")])]>
               (heap no_contexts)
  /\ Context_reinvoke 7 st1 = Context_invoke 7 (CommandRef pong) [PyInt 1] [("x", PyStr "a")] st1.
Proof.
  apply (Context_invoke_writes_self 7 pong [PyInt 1] [("x", PyStr "a")] no_contexts).
  - intros ctx a k w. reflexivity.
  - intros h ctx e w Hh. discriminate Hh.
Defined.

(** After [redirect] ran on context 7 the context holds [pong] and no
    arguments, and that is what [reinvoke()] invokes. *)
Lemma reinvoke_replays_stored_witness :
  let st1 := (Context_invoke 7 (CommandRef redirect) [PyInt 1] [("x", PyStr "a")] knows_pong).2 in
  Context_reinvoke 7 st1 = Context_invoke 7 (CommandRef pong) [] [] st1.
Proof.
  intros st1.
  refine (proj1 (reinvoke_replays_stored 7 st1 11 pong [] [] _ _)); reflexivity.
Defined.

Lemma sync_handler_needs_ensure_async_witness :
  (exists text,
     Command_invoke sync_command 7 [] [] initial
     = (Normal tt, after initial [started 7; errored 7 (TypeError text); completed 7] 1))
  /\ Command_invoke wrapped_command 7 [] [] initial
     = (Normal tt, after initial [started 7; succeeded 7; completed 7] 1).
Proof.
  apply (sync_handler_needs_ensure_async sync_command wrapped_command sync_handler
           7 [] [] initial PyNone 1); reflexivity.
Defined.
